(* Shallow embedding of sycl::impl::transform_reduce
   (include/sycl/algorithm/transform_reduce.hpp) and of the collaborators it
   calls, with the properties stated for it. *)

From Stdlib Require Import List Arith Lia.
Import ListNotations.

(** * Host-visible effects of one call *)

(** The device capability read at line 64. *)
Record device := mk_device { max_work_group_size : nat }.

(** The parameters a kernel is closed over (lines 73 and 84): [passes],
    [length], [local] and [global]. *)
Record kernel := mk_kernel {
  k_passes : nat;
  k_length : nat;
  k_local : nat;
  k_global : nat
}.

(** The observable device interactions of one call, in program order. *)
Inductive event :=
| EvResultBuffer (n : nat)   (* line 57: cl::sycl::buffer<T,1> bufR(range(n)) *)
| EvDeviceQuery              (* lines 62-64: q.get_device(), get_info<max_work_group_size> *)
| EvInputBuffer (n : nat)    (* line 67: make_const_buffer(first, last) *)
| EvSubmit (k : kernel)      (* line 98: q.submit(f) *)
| EvWait                     (* line 102: q.wait_and_throw() *)
| EvReadBack.                (* lines 103-105: host_buffer access to bufR *)

(** The kernels submitted, in submission order. *)
Fixpoint submissions (tr : list event) : list kernel :=
  match tr with
  | [] => []
  | EvSubmit k :: tr' => k :: submissions tr'
  | _ :: tr' => submissions tr'
  end.

(** Modelled from the spec: [ExecutionPolicy::calculateGlobalSize] (the
    execution policy is not in src/). Section 4.1: the smallest multiple of
    [local] that is at least [length]. *)
Definition calculateGlobalSize (vectorSize local : nat) : nat :=
  ((vectorSize + local - 1) / local) * local.

(** Writing one slot of a device buffer; the write-back slots are always in
    range here, an out-of-range write would leave the buffer unchanged. *)
Fixpoint set_nth {A} (i : nat) (v : A) (l : list A) : list A :=
  match l, i with
  | [], _ => []
  | _ :: r, 0 => v :: r
  | x :: r, S j => x :: set_nth j v r
  end.

Section TransformReduce.

Context {T : Type}.

(** The contents of a slot of [bufR] that no kernel has written yet
    (the buffer is created uninitialised at line 57). *)
Variable undef : T.

(** ** The reduction strategy *)

(** Modelled from the spec: [ReductionStrategy<T>] (declared in
    algorithm_composite_patterns.hpp, not in src/), section 4.3. A work-item
    whose global index is at or past the logical length is excluded from the
    fold: its scratch slot holds [None]. *)
Definition opt_op (binary_op : T -> T -> T) (x y : option T) : option T :=
  match x, y with
  | Some a, Some b => Some (binary_op a b)
  | Some a, None => Some a
  | None, y => y
  end.

(** Modelled from the spec: [ReductionStrategy::workitem_get_from(unary_op, aI)],
    ingest on pass 0: read the Input Buffer at the global index and transform. *)
Definition workitem_get_from_input (length : nat) (unary_op : T -> T)
    (aI : list T) (globalid : nat) : option T :=
  if globalid <? length then Some (unary_op (nth globalid aI undef)) else None.

(** Modelled from the spec: [ReductionStrategy::workitem_get_from(aR)],
    ingest on later passes: read the Partial-Result Buffer at the global index. *)
Definition workitem_get_from_result (length : nat) (aR : list T)
    (globalid : nat) : option T :=
  if globalid <? length then Some (nth globalid aR undef) else None.

(** Lines 89-93: the choice of the ingest source by the pass number. *)
Definition kernel_ingest (k : kernel) (unary_op : T -> T) (aI aR : list T)
    (globalid : nat) : option T :=
  if k_passes k =? 0
  then workitem_get_from_input (k_length k) unary_op aI globalid
  else workitem_get_from_result (k_length k) aR globalid.

(** Modelled from the spec: one round of [ReductionStrategy::combine_threads]:
    neighbouring scratch entries are folded pairwise, halving the active count. *)
Fixpoint combine_round (binary_op : T -> T -> T) (l : list (option T))
    : list (option T) :=
  match l with
  | x :: y :: r => opt_op binary_op x y :: combine_round binary_op r
  | _ => l
  end.

Fixpoint combine_rounds (binary_op : T -> T -> T) (fuel : nat)
    (l : list (option T)) : list (option T) :=
  match fuel with
  | 0 => l
  | S f =>
      match l with
      | _ :: _ :: _ => combine_rounds binary_op f (combine_round binary_op l)
      | _ => l
      end
  end.

(** Modelled from the spec: [ReductionStrategy::combine_threads]: rounds until
    one value remains in scratch slot 0 (at most [local] rounds are needed). *)
Definition combine_threads (binary_op : T -> T -> T) (scratch : list (option T))
    : option T :=
  hd None (combine_rounds binary_op (List.length scratch) scratch).

(** The fold of the scratch values that take part, in work-item order. *)
Definition opt_fold (binary_op : T -> T -> T) (l : list (option T)) : option T :=
  fold_right (opt_op binary_op) None l.

(** The combined value of work-group [g]: its [local] work-items have the
    global indices [g * local + localid]. *)
Definition group_value (k : kernel) (unary_op : T -> T) (binary_op : T -> T -> T)
    (aI aR : list T) (g : nat) : option T :=
  combine_threads binary_op
    (map (fun localid => kernel_ingest k unary_op aI aR (g * k_local k + localid))
         (seq 0 (k_local k))).

(** Modelled from the spec: [ReductionStrategy::workgroup_write_to(aR)]: the
    group's combined value is written at the group's index; a group with no
    in-range work-item has nothing to write. *)
Definition workgroup_write_to (g : nat) (v : option T) (aR : list T) : list T :=
  match v with
  | Some x => set_nth g x aR
  | None => aR
  end.

(** One kernel execution over the nd_range of line 75
    ([max(global, local)] work-items in groups of [local]). Groups are taken
    to read [bufR] before any of them writes back to it, the schedule under
    which each pass reads the slots of the preceding pass (section 5). *)
Definition run_kernel (k : kernel) (unary_op : T -> T) (binary_op : T -> T -> T)
    (aI aR : list T) : list T :=
  fold_left
    (fun acc g => workgroup_write_to g (group_value k unary_op binary_op aI aR g) acc)
    (seq 0 (Nat.max (k_global k) (k_local k) / k_local k)) aR.

(** ** The pass orchestrator: the do-while loop of lines 72-101 *)

Record loop_state := mk_state {
  passes : nat;
  length : nat;
  bufR : list T;
  trace : list event
}.

(** One iteration of the loop body: submit a kernel closed over the current
    [passes] and [length], then [passes++] and [length = length / local]. *)
Definition loop_body (local global : nat) (unary_op : T -> T)
    (binary_op : T -> T -> T) (aI : list T) (st : loop_state) : loop_state :=
  let k := mk_kernel (passes st) (length st) local global in
  mk_state (S (passes st)) (length st / local)
    (run_kernel k unary_op binary_op aI (bufR st))
    (trace st ++ [EvSubmit k]).

(** The loop, run for at most [fuel] iterations; [None] when it has not left
    the loop after that many iterations. *)
Fixpoint pass_loop (fuel : nat) (local global : nat) (unary_op : T -> T)
    (binary_op : T -> T -> T) (aI : list T) (st : loop_state)
    : option loop_state :=
  match fuel with
  | 0 => None
  | S f =>
      let st' := loop_body local global unary_op binary_op aI st in
      if 1 <? length st'
      then pass_loop f local global unary_op binary_op aI st'
      else Some st'
  end.

(** ** transform_reduce (lines 52-106)

    The sequence [first, last) is the list [input]; [exec] contributes its
    queue's device. The result is the returned value and the trace of device
    interactions; [None] means the loop did not finish within [fuel]
    iterations. *)
Definition transform_reduce (fuel : nat) (dev : device) (input : list T)
    (unary_op : T -> T) (init : T) (binary_op : T -> T -> T)
    : option (T * list event) :=
  let vectorSize := List.length input in
  let tr0 := [EvResultBuffer vectorSize] in
  if vectorSize <? 1 then Some (init, tr0) else
  let local := Nat.min (max_work_group_size dev) vectorSize in
  let tr1 := tr0 ++ [EvDeviceQuery; EvInputBuffer vectorSize] in
  let bufI := input in
  let global := calculateGlobalSize vectorSize local in
  match pass_loop fuel local global unary_op binary_op bufI
          (mk_state 0 vectorSize (repeat undef vectorSize) tr1) with
  | None => None
  | Some st => Some (binary_op (nth 0 (bufR st) undef) init,
                     trace st ++ [EvWait; EvReadBack])
  end.

(** The sequential reference of section 8: [fold(S) (+) init]. *)
Definition seq_fold (binary_op : T -> T -> T) (s : list T) (init : T) : T :=
  match s with
  | [] => init
  | x :: r => binary_op (fold_left binary_op r x) init
  end.

End TransformReduce.

Definition result_of {T} (r : option (T * list event)) : option T :=
  option_map fst r.

Example ex_squares :
  result_of (transform_reduce 0 10 (mk_device 4) [1;2;3;4;5;6;7;8]
               (fun x => x * x) 0 Nat.add) = Some 204.
Proof. reflexivity. Qed.
Example ex_init100 :
  result_of (transform_reduce 0 10 (mk_device 2) [1;2;3;4;5;6;7;8]
               (fun x => x) 100 Nat.add) = Some 136.
Proof. reflexivity. Qed.
Example ex_single :
  result_of (transform_reduce 0 10 (mk_device 4) [7] S 2 Nat.mul) = Some 16.
Proof. reflexivity. Qed.
(** * Facts about the loop and the call *)

Section Facts.

Context {T : Type}.
Variable undef : T.

Lemma submissions_app (l1 l2 : list event) :
  submissions (l1 ++ l2) = submissions l1 ++ submissions l2.
Proof.
  induction l1 as [|e l1 IH]; [reflexivity|].
  destruct e; simpl; rewrite ?IH; reflexivity.
Qed.

Lemma submissions_map (ks : list kernel) : submissions (map EvSubmit ks) = ks.
Proof. induction ks as [|k ks IH]; simpl; congruence. Qed.

(** Every run of the loop that leaves it has appended one submission per
    iteration, numbered from the current pass on, all with the same [local]
    and [global]. *)
Lemma pass_loop_trace fuel local global uo bo aI (st st' : @loop_state T) :
  pass_loop undef fuel local global uo bo aI st = Some st' ->
  exists ks, ks <> [] /\
    trace st' = trace st ++ map EvSubmit ks /\
    map k_passes ks = seq (passes st) (List.length ks) /\
    (forall k, In k ks -> k_local k = local /\ k_global k = global) /\
    length st' <= 1.
Proof.
  revert st. induction fuel as [|f IH]; intros st H; [discriminate|].
  simpl in H. unfold loop_body in H. simpl in H.
  destruct (1 <? length st / local) eqn:E.
  - destruct (IH _ H) as (ks & _ & Htr & Hp & Hk & Hl).
    exists (mk_kernel (passes st) (length st) local global :: ks).
    split; [discriminate|].
    split; [rewrite Htr; simpl; rewrite <- app_assoc; reflexivity|].
    split; [simpl; rewrite Hp; reflexivity|].
    split; [|exact Hl].
    intros k' [Hk'|Hin]; [subst k'; split; reflexivity|exact (Hk k' Hin)].
  - injection H as <-. exists [mk_kernel (passes st) (length st) local global].
    split; [discriminate|].
    split; [reflexivity|].
    split; [reflexivity|].
    split; [intros k' [Hk'|[]]; subst k'; split; reflexivity|].
    apply Nat.ltb_ge in E. exact E.
Qed.

(** A non-empty call that returns has gone through the loop; its trace is
    the set-up, the submissions and one final wait and read-back. *)
Lemma transform_reduce_shape fuel dev (input : list T) uo init bo r tr :
  input <> [] ->
  transform_reduce undef fuel dev input uo init bo = Some (r, tr) ->
  let n := List.length input in
  let local := Nat.min (max_work_group_size dev) n in
  exists st ks,
    pass_loop undef fuel local (calculateGlobalSize n local) uo bo input
      (mk_state 0 n (repeat undef n)
         [EvResultBuffer n; EvDeviceQuery; EvInputBuffer n]) = Some st /\
    r = bo (nth 0 (bufR st) undef) init /\
    tr = [EvResultBuffer n; EvDeviceQuery; EvInputBuffer n]
         ++ map EvSubmit ks ++ [EvWait; EvReadBack] /\
    ks <> [] /\
    map k_passes ks = seq 0 (List.length ks) /\
    (forall k, In k ks -> k_local k = local /\ k_global k = calculateGlobalSize n local).
Proof.
  intros Hne H n local. unfold transform_reduce in H.
  destruct input as [|x xs]; [contradiction|]. simpl in H.
  fold n local in H.
  destruct (pass_loop _ _ _ _ _ _ _ _) as [st|] eqn:E; [|discriminate].
  injection H as <- <-.
  destruct (pass_loop_trace _ _ _ _ _ _ _ _ E) as (ks & Hne' & Htr & Hp & Hk & _).
  exists st, ks. simpl in Htr, Hp. subst n local. simpl.
  split; [reflexivity|]. split; [reflexivity|].
  split; [rewrite Htr; reflexivity|].
  split; [exact Hne'|]. split; [exact Hp|]. exact Hk.
Qed.


(** The local size 1 keeps the logical length where it is. *)
Lemma pass_loop_local_one fuel global uo bo aI (st : @loop_state T) :
  2 <= length st -> pass_loop undef fuel 1 global uo bo aI st = None.
Proof.
  revert st. induction fuel as [|f IH]; intros st Hl; [reflexivity|].
  cbn [pass_loop]. unfold loop_body. cbn [length]. rewrite Nat.div_1_r.
  replace (1 <? length st) with true by (symmetry; apply Nat.ltb_lt; lia).
  apply IH. exact Hl.
Qed.

(** With a local size of at least 2 the loop leaves within [length] passes. *)
Lemma pass_loop_terminates fuel local global uo bo aI (st : @loop_state T) :
  2 <= local -> 1 <= length st -> length st <= fuel ->
  exists st', pass_loop undef fuel local global uo bo aI st = Some st'.
Proof.
  revert st. induction fuel as [|f IH]; intros st Hloc H1 Hf; [lia|].
  cbn [pass_loop]. unfold loop_body. cbn [length].
  destruct (1 <? length st / local) eqn:E; [|eexists; reflexivity].
  apply Nat.ltb_lt in E. apply IH; simpl; [exact Hloc|lia|].
  assert (length st / local < length st) by (apply Nat.div_lt; lia). lia.
Qed.

End Facts.

(** * The tree combine of a work-group *)

Section Combine.

Context {T : Type}.
Variable binary_op : T -> T -> T.
Hypothesis binary_op_assoc :
  forall a b c, binary_op a (binary_op b c) = binary_op (binary_op a b) c.

Lemma opt_op_assoc (x y z : option T) :
  opt_op binary_op x (opt_op binary_op y z) = opt_op binary_op (opt_op binary_op x y) z.
Proof.
  destruct x, y, z; simpl; rewrite ?binary_op_assoc; reflexivity.
Qed.

Lemma opt_op_none_r (x : option T) : opt_op binary_op x None = x.
Proof. destruct x; reflexivity. Qed.

Lemma combine_round_fold_len n (l : list (option T)) :
  List.length l <= n ->
  opt_fold binary_op (combine_round binary_op l) = opt_fold binary_op l /\
  2 * List.length (combine_round binary_op l) <= List.length l + 1.
Proof.
  revert l. induction n as [|n IH]; intros l Hl.
  - destruct l; [split; [reflexivity|simpl; lia]|simpl in Hl; lia].
  - destruct l as [|x [|y r]]; [split; [reflexivity|simpl; lia]|split; [reflexivity|simpl; lia]|].
    simpl in Hl. destruct (IH r ltac:(lia)) as [Hf Hlen].
    unfold opt_fold in *. simpl. split.
    + rewrite Hf, opt_op_assoc. reflexivity.
    + simpl in Hlen. lia.
Qed.

Lemma combine_rounds_fold fuel (l : list (option T)) :
  opt_fold binary_op (combine_rounds binary_op fuel l) = opt_fold binary_op l.
Proof.
  revert l. induction fuel as [|f IH]; intros l; [reflexivity|].
  destruct l as [|x [|y r]]; [reflexivity|reflexivity|].
  simpl combine_rounds. rewrite IH.
  exact (proj1 (combine_round_fold_len _ (x :: y :: r) (le_n _))).
Qed.

Lemma combine_rounds_short fuel (l : list (option T)) :
  List.length l <= S fuel -> List.length (combine_rounds binary_op fuel l) <= 1.
Proof.
  revert l. induction fuel as [|f IH]; intros l Hl; [exact Hl|].
  destruct l as [|x [|y r]]; simpl; [lia|lia|].
  apply IH.
  pose proof (proj2 (combine_round_fold_len _ (x :: y :: r) (le_n _))) as H.
  simpl in H, Hl |- *. lia.
Qed.

(** For an associative operator the tree combine is the in-order fold. *)
Lemma combine_threads_fold (l : list (option T)) :
  combine_threads binary_op l = opt_fold binary_op l.
Proof.
  unfold combine_threads.
  rewrite <- (combine_rounds_fold (List.length l) l).
  pose proof (combine_rounds_short (List.length l) l (le_S _ _ (le_n _))) as H.
  destruct (combine_rounds binary_op (List.length l) l) as [|x [|y r]];
    [reflexivity| |simpl in H; lia].
  unfold opt_fold. simpl. rewrite opt_op_none_r. reflexivity.
Qed.

Lemma opt_fold_filter {A} (p : A -> bool) (f : A -> option T) (ids : list A) :
  (forall i, p i = false -> f i = None) ->
  opt_fold binary_op (map f ids) = opt_fold binary_op (map f (filter p ids)).
Proof.
  intros Hp. induction ids as [|i ids IH]; [reflexivity|].
  simpl. destruct (p i) eqn:E.
  - unfold opt_fold in *. simpl. rewrite IH. reflexivity.
  - rewrite (Hp i E). unfold opt_fold in *. simpl. exact IH.
Qed.

End Combine.

(** * The claims *)

Section Claims.

Context {T : Type}.
Variable undef : T.

(** C2 (amended): on an empty range the call returns exactly [init]; it
    queries no device, builds no input buffer, submits no kernel and does not
    wait. The one device object it makes is the zero-length result buffer
    [bufR], constructed at line 57 before the emptiness check. *)
Theorem C2_empty_returns_init fuel dev (uo : T -> T) init bo :
  transform_reduce undef fuel dev [] uo init bo = Some (init, [EvResultBuffer 0]).
Proof. reflexivity. Qed.

(** C3 (amended): a non-empty call that returns submits its passes one after
    the other with no host-side wait between them; the only blocking wait
    ([wait_and_throw]) comes once, after the last submission and before the
    read-back. *)
Theorem C3_single_wait_after_last_submission fuel dev (input : list T) uo init bo r tr :
  input <> [] ->
  transform_reduce undef fuel dev input uo init bo = Some (r, tr) ->
  exists ks, ks <> [] /\
    tr = [EvResultBuffer (List.length input); EvDeviceQuery;
          EvInputBuffer (List.length input)]
         ++ map EvSubmit ks ++ [EvWait; EvReadBack].
Proof.
  intros Hne H.
  destruct (transform_reduce_shape undef _ _ _ _ _ _ _ _ Hne H)
    as (st & ks & _ & _ & Htr & Hks & _).
  exists ks. split; [exact Hks|exact Htr].
Qed.

(** C5 (code as written): when the device reports a maximum work-group size
    of 1, [local] is 1, [length = length / local] never shrinks, and for an
    input of two or more elements the do-while loop never leaves: no amount
    of fuel lets the call return. *)
Theorem C5_local_one_never_terminates fuel dev (input : list T) uo init bo :
  max_work_group_size dev = 1 -> 2 <= List.length input ->
  transform_reduce undef fuel dev input uo init bo = None.
Proof.
  intros Hmax Hlen. unfold transform_reduce.
  replace (List.length input <? 1) with false by (symmetry; apply Nat.ltb_ge; lia).
  rewrite Hmax. replace (Nat.min 1 (List.length input)) with 1 by lia.
  rewrite pass_loop_local_one; [reflexivity|]. simpl. exact Hlen.
Qed.

(** C6: the submitted kernels carry the pass numbers 0, 1, 2, ... in
    submission order; on pass 0 an in-range work-item ingests [unary_op] of
    the input element at its global index, on a later pass the value of the
    Partial-Result Buffer at its global index, untransformed. *)
Theorem C6_pass_numbering_and_ingest fuel dev (input : list T) uo init bo r tr :
  input <> [] ->
  transform_reduce undef fuel dev input uo init bo = Some (r, tr) ->
  map k_passes (submissions tr) = seq 0 (List.length (submissions tr)) /\
  (forall k aR globalid, In k (submissions tr) -> globalid < k_length k ->
     kernel_ingest undef k uo input aR globalid =
     Some (if k_passes k =? 0 then uo (nth globalid input undef)
           else nth globalid aR undef)).
Proof.
  intros Hne H.
  destruct (transform_reduce_shape undef _ _ _ _ _ _ _ _ Hne H)
    as (st & ks & _ & _ & Htr & _ & Hp & _).
  assert (Hs : submissions tr = ks).
  { rewrite Htr, !submissions_app, submissions_map. simpl. apply app_nil_r. }
  rewrite Hs. split; [exact Hp|].
  intros k aR globalid _ Hlt.
  unfold kernel_ingest, workitem_get_from_input, workitem_get_from_result.
  apply Nat.ltb_lt in Hlt. rewrite Hlt.
  destruct (k_passes k =? 0); reflexivity.
Qed.

(** C7: the returned value is [binary_op d init], where [d] is slot 0 of
    [bufR] once the loop has left with a logical length of at most 1. *)
Theorem C7_result_is_device_value_then_init fuel dev (input : list T) uo init bo r tr :
  input <> [] ->
  transform_reduce undef fuel dev input uo init bo = Some (r, tr) ->
  let n := List.length input in
  let local := Nat.min (max_work_group_size dev) n in
  exists st,
    pass_loop undef fuel local (calculateGlobalSize n local) uo bo input
      (mk_state 0 n (repeat undef n)
         [EvResultBuffer n; EvDeviceQuery; EvInputBuffer n]) = Some st /\
    length st <= 1 /\
    r = bo (nth 0 (bufR st) undef) init.
Proof.
  intros Hne H n local.
  destruct (transform_reduce_shape undef _ _ _ _ _ _ _ _ Hne H)
    as (st & ks & E & Hr & _).
  destruct (pass_loop_trace undef _ _ _ _ _ _ _ _ E) as (ks' & _ & _ & _ & _ & Hl).
  exists st. split; [exact E|]. split; [exact Hl|exact Hr].
Qed.

(** C8: every kernel of a non-empty call that returns uses the same local
    size [min(maxGroupSize, length)], computed once from the input length,
    and it is positive for a device whose maximum group size is positive. *)
Theorem C8_local_fixed_for_all_passes fuel dev (input : list T) uo init bo r tr :
  input <> [] -> 1 <= max_work_group_size dev ->
  transform_reduce undef fuel dev input uo init bo = Some (r, tr) ->
  forall k, In k (submissions tr) ->
    k_local k = Nat.min (max_work_group_size dev) (List.length input) /\
    0 < k_local k.
Proof.
  intros Hne Hmax H k Hin.
  destruct (transform_reduce_shape undef _ _ _ _ _ _ _ _ Hne H)
    as (st & ks & _ & _ & Htr & _ & _ & Hk).
  rewrite Htr, !submissions_app, submissions_map in Hin. simpl in Hin.
  rewrite app_nil_r in Hin.
  destruct (Hk k Hin) as [Hl _]. split; [exact Hl|].
  rewrite Hl. destruct input as [|x xs]; [contradiction|]. simpl. lia.
Qed.

(** C10: a non-empty call that returns has submitted a kernel before it
    reads the result back, also for a single-element input. *)
Theorem C10_nonempty_submits_before_readback fuel dev (input : list T) uo init bo r tr :
  input <> [] ->
  transform_reduce undef fuel dev input uo init bo = Some (r, tr) ->
  exists pre k post, tr = pre ++ EvSubmit k :: post /\
    In EvReadBack post /\ ~ In EvReadBack pre.
Proof.
  intros Hne H.
  destruct (transform_reduce_shape undef _ _ _ _ _ _ _ _ Hne H)
    as (st & ks & _ & _ & Htr & Hks & _).
  destruct ks as [|k ks]; [contradiction|].
  exists [EvResultBuffer (List.length input); EvDeviceQuery;
          EvInputBuffer (List.length input)], k,
         (map EvSubmit ks ++ [EvWait; EvReadBack]).
  split; [exact Htr|]. split.
  - apply in_or_app. right. simpl. auto.
  - simpl. intros [E|[E|[E|[]]]]; discriminate.
Qed.

End Claims.

(** C9: in every group the work-items whose global index is at or past the
    logical length are left out of the tree combine: the group's value is the
    in-order fold of the in-range work-items' values alone, each of which
    takes part. *)
Theorem C9_padding_items_excluded {T} (undef : T) (bo : T -> T -> T)
    (bo_assoc : forall a b c, bo a (bo b c) = bo (bo a b) c)
    k uo (aI aR : list T) g :
  let ids := filter (fun globalid => globalid <? k_length k)
               (map (fun localid => g * k_local k + localid) (seq 0 (k_local k))) in
  group_value undef k uo bo aI aR g =
    opt_fold bo (map (kernel_ingest undef k uo aI aR) ids) /\
  Forall (fun v => v <> None) (map (kernel_ingest undef k uo aI aR) ids).
Proof.
  intros ids. split.
  - unfold group_value. rewrite combine_threads_fold by exact bo_assoc.
    rewrite <- (map_map (fun localid => g * k_local k + localid)).
    apply opt_fold_filter.
    intros i Hi. unfold kernel_ingest, workitem_get_from_input,
      workitem_get_from_result. rewrite Hi. destruct (k_passes k =? 0); reflexivity.
  - apply Forall_forall. intros v Hv. apply in_map_iff in Hv.
    destruct Hv as (i & <- & Hi). subst ids. apply filter_In in Hi.
    destruct Hi as [_ Hi].
    unfold kernel_ingest, workitem_get_from_input, workitem_get_from_result.
    rewrite Hi. destruct (k_passes k =? 0); discriminate.
Qed.

(** * Concrete runs *)

(** C1 (code as written): for [S = [1;2;3]], [+], identity and [init = 0] on
    a device of maximum group size 2, the first pass writes [1+2] and [3] to
    [bufR], [length = 3 / 2 = 1] leaves the loop, and the call returns 3,
    while the sequential fold gives 6. *)
Theorem C1_truncation_drops_tail :
  result_of (transform_reduce 0 10 (mk_device 2) [1;2;3] (fun x => x) 0 Nat.add) = Some 3 /\
  seq_fold Nat.add [1;2;3] 0 = 6.
Proof. split; reflexivity. Qed.

(** C2: the empty call does construct a device buffer, the zero-length [bufR]. *)
Lemma C2_empty_creates_result_buffer :
  exists tr, transform_reduce 0 0 (mk_device 4) [] S 42 Nat.add = Some (42, tr) /\
    In (EvResultBuffer 0) tr.
Proof. exists [EvResultBuffer 0]. split; [reflexivity|left; reflexivity]. Qed.

(** C3: with four elements and a group size of 2 the two passes are submitted
    back to back, with no wait between them. *)
Lemma C3_consecutive_submissions_without_wait :
  exists r pre k1 k2 post,
    transform_reduce 0 10 (mk_device 2) [1;2;3;4] (fun x => x) 0 Nat.add =
      Some (r, pre ++ EvSubmit k1 :: EvSubmit k2 :: post).
Proof.
  exists 10, [EvResultBuffer 4; EvDeviceQuery; EvInputBuffer 4],
    (mk_kernel 0 4 2 4), (mk_kernel 1 2 2 4), [EvWait; EvReadBack].
  reflexivity.
Qed.

(** C4 (code as written): the same input, operator and [init] give 6 with a
    maximum group size of 3 and 3 with a maximum group size of 2. *)
Theorem C4_group_size_changes_result :
  result_of (transform_reduce 0 10 (mk_device 3) [1;2;3] (fun x => x) 0 Nat.add) = Some 6 /\
  result_of (transform_reduce 0 10 (mk_device 2) [1;2;3] (fun x => x) 0 Nat.add) = Some 3.
Proof. split; reflexivity. Qed.

(** * Instances of the claims at concrete inputs *)

Lemma C3_witness :
  exists r tr,
    transform_reduce 0 10 (mk_device 2) [1;2;3;4] (fun x => x) 0 Nat.add = Some (r, tr) /\
    exists ks, ks <> [] /\
      tr = [EvResultBuffer (List.length [1;2;3;4]); EvDeviceQuery;
            EvInputBuffer (List.length [1;2;3;4])]
           ++ map EvSubmit ks ++ [EvWait; EvReadBack].
Proof.
  eexists; eexists; split; [reflexivity|].
  exact (C3_single_wait_after_last_submission 0 10 (mk_device 2) [1;2;3;4]
           (fun x => x) 0 Nat.add _ _ ltac:(discriminate) eq_refl).
Defined.

Lemma C5_witness :
  max_work_group_size (mk_device 1) = 1 /\ 2 <= List.length [1;2] /\
  transform_reduce 0 100 (mk_device 1) [1;2] (fun x => x) 0 Nat.add = None.
Proof.
  split; [reflexivity|]. split; [simpl; lia|].
  apply C5_local_one_never_terminates; [reflexivity|simpl; lia].
Defined.

Lemma C6_witness :
  exists r tr,
    transform_reduce 0 10 (mk_device 2) [1;2;3;4] S 0 Nat.add = Some (r, tr) /\
    map k_passes (submissions tr) = seq 0 (List.length (submissions tr)) /\
    (forall k aR globalid, In k (submissions tr) -> globalid < k_length k ->
       kernel_ingest 0 k S [1;2;3;4] aR globalid =
       Some (if k_passes k =? 0 then S (nth globalid [1;2;3;4] 0)
             else nth globalid aR 0)).
Proof.
  eexists; eexists; split; [reflexivity|].
  exact (C6_pass_numbering_and_ingest 0 10 (mk_device 2) [1;2;3;4] S 0 Nat.add
           _ _ ltac:(discriminate) eq_refl).
Defined.

Lemma C7_witness :
  exists r tr,
    transform_reduce 0 10 (mk_device 2) [5;1] (fun x => x) 10 Nat.sub = Some (r, tr) /\
    exists st,
      pass_loop 0 10 (Nat.min 2 2) (calculateGlobalSize 2 (Nat.min 2 2))
        (fun x => x) Nat.sub [5;1]
        (mk_state 0 2 (repeat 0 2) [EvResultBuffer 2; EvDeviceQuery; EvInputBuffer 2])
        = Some st /\
      length st <= 1 /\ r = Nat.sub (nth 0 (bufR st) 0) 10.
Proof.
  eexists; eexists; split; [reflexivity|].
  exact (C7_result_is_device_value_then_init 0 10 (mk_device 2) [5;1]
           (fun x => x) 10 Nat.sub _ _ ltac:(discriminate) eq_refl).
Defined.

Lemma C8_witness :
  exists r tr,
    transform_reduce 0 10 (mk_device 2) [1;2;3;4] (fun x => x) 0 Nat.add = Some (r, tr) /\
    forall k, In k (submissions tr) ->
      k_local k = Nat.min (max_work_group_size (mk_device 2)) (List.length [1;2;3;4]) /\
      0 < k_local k.
Proof.
  eexists; eexists; split; [reflexivity|].
  exact (C8_local_fixed_for_all_passes 0 10 (mk_device 2) [1;2;3;4]
           (fun x => x) 0 Nat.add _ _ ltac:(discriminate) ltac:(simpl; lia) eq_refl).
Defined.

Lemma C9_witness :
  let k := mk_kernel 1 3 2 4 in
  let ids := filter (fun globalid => globalid <? k_length k)
               (map (fun localid => 1 * k_local k + localid) (seq 0 (k_local k))) in
  group_value 0 k S Nat.add [1;2;3;4] [3;7;9;0] 1 =
    opt_fold Nat.add (map (kernel_ingest 0 k S [1;2;3;4] [3;7;9;0]) ids) /\
  Forall (fun v => v <> None) (map (kernel_ingest 0 k S [1;2;3;4] [3;7;9;0]) ids).
Proof.
  exact (C9_padding_items_excluded 0 Nat.add Nat.add_assoc (mk_kernel 1 3 2 4) S
           [1;2;3;4] [3;7;9;0] 1).
Defined.

Lemma C10_witness :
  exists r tr,
    transform_reduce 0 10 (mk_device 4) [7] S 2 Nat.mul = Some (r, tr) /\
    exists pre k post, tr = pre ++ EvSubmit k :: post /\
      In EvReadBack post /\ ~ In EvReadBack pre.
Proof.
  eexists; eexists; split; [reflexivity|].
  exact (C10_nonempty_submits_before_readback 0 10 (mk_device 4) [7] S 2 Nat.mul
           _ _ ltac:(discriminate) eq_refl).
Defined.

(** * Further properties of the call *)

Lemma div_div_any (a b c : nat) : a / b / c = a / (b * c).
Proof. apply Nat.Div0.div_div. Qed.

Lemma fold_left_ext_acc {A B} (f g : A -> B -> A) (l : list B) (a : A) :
  (forall acc x, In x l -> f acc x = g acc x) -> fold_left f l a = fold_left g l a.
Proof.
  revert a. induction l as [|x l IH]; intros a H; [reflexivity|].
  simpl. rewrite H by (left; reflexivity). apply IH.
  intros acc y Hy. apply H. right. exact Hy.
Qed.

Lemma map_nth_seq {A} (l : list A) (d : A) :
  map (fun i => nth i l d) (seq 0 (List.length l)) = l.
Proof.
  induction l as [|x l IH]; [reflexivity|].
  simpl. f_equal. rewrite <- seq_shift, map_map. exact IH.
Qed.

Section Extra.

Context {T : Type}.
Variable undef : T.

(** The i-th iteration of the loop is closed over the length
    [length / local ^ i]; the loop has gone on past iteration i exactly when
    that length, after division, was still above 1. *)
Lemma pass_loop_lengths fuel local global uo bo aI (st st' : @loop_state T) :
  pass_loop undef fuel local global uo bo aI st = Some st' ->
  exists ks,
    trace st' = trace st ++ map EvSubmit ks /\ ks <> [] /\
    (forall i k, nth_error ks i = Some k ->
       k_passes k = passes st + i /\ k_length k = length st / local ^ i) /\
    length st' = length st / local ^ List.length ks /\
    (forall i, 1 <= i < List.length ks -> 1 < length st / local ^ i).
Proof.
  revert st. induction fuel as [|f IH]; intros st H; [discriminate|].
  cbn [pass_loop] in H. unfold loop_body in H. cbn [length] in H.
  destruct (1 <? length st / local) eqn:E.
  - destruct (IH _ H) as (ks & Htr & _ & Hk & Hl & Hgt). cbn [length trace passes] in *.
    exists (mk_kernel (passes st) (length st) local global :: ks).
    split; [rewrite Htr, <- app_assoc; reflexivity|].
    split; [discriminate|].
    split.
    { intros [|i] k Hi.
      - injection Hi as <-. simpl. split; [lia|]. symmetry. apply Nat.div_1_r.
      - simpl in Hi. destruct (Hk i k Hi) as [Hp Hlen].
        rewrite Hp, Hlen, div_div_any. split; [lia|reflexivity]. }
    split; [rewrite Hl, div_div_any; reflexivity|].
    intros [|[|i]] Hi; simpl in Hi; [lia| |].
    + simpl. rewrite Nat.mul_1_r. apply Nat.ltb_lt. exact E.
    + specialize (Hgt (S i) ltac:(lia)). rewrite div_div_any in Hgt. exact Hgt.
  - injection H as <-. exists [mk_kernel (passes st) (length st) local global].
    split; [reflexivity|]. split; [discriminate|].
    split.
    { intros [|[|i]] k Hi; try discriminate.
      injection Hi as <-. simpl. split; [lia|]. symmetry. apply Nat.div_1_r. }
    split; [simpl; rewrite Nat.mul_1_r; reflexivity|].
    intros i Hi. simpl in Hi. lia.
Qed.

(** A non-empty call that returns has run the loop from its initial state and
    appended the final wait and read-back to the loop's trace. *)
Lemma transform_reduce_loop fuel dev (input : list T) uo init bo r tr :
  input <> [] ->
  transform_reduce undef fuel dev input uo init bo = Some (r, tr) ->
  let n := List.length input in
  let local := Nat.min (max_work_group_size dev) n in
  exists st,
    pass_loop undef fuel local (calculateGlobalSize n local) uo bo input
      (mk_state 0 n (repeat undef n)
         [EvResultBuffer n; EvDeviceQuery; EvInputBuffer n]) = Some st /\
    tr = trace st ++ [EvWait; EvReadBack] /\
    r = bo (nth 0 (bufR st) undef) init.
Proof.
  intros Hne H n local. unfold transform_reduce in H.
  destruct input as [|x xs]; [contradiction|]. simpl in H.
  destruct (pass_loop _ _ _ _ _ _ _ _) as [st|] eqn:E; [|discriminate].
  injection H as <- <-. exists st. subst n local. simpl.
  split; [reflexivity|]. split; reflexivity.
Qed.

Lemma submissions_setup_loop n ks :
  submissions ([EvResultBuffer n; EvDeviceQuery; EvInputBuffer n]
               ++ map EvSubmit ks ++ [EvWait; EvReadBack]) = ks.
Proof.
  rewrite !submissions_app, submissions_map. simpl. apply app_nil_r.
Qed.

(** Pass [i] of a call on [n] elements is closed over [passes = i] and the
    logical length [n / local ^ i]. *)
Theorem X_pass_lengths fuel dev (input : list T) uo init bo r tr :
  input <> [] ->
  transform_reduce undef fuel dev input uo init bo = Some (r, tr) ->
  forall i k, nth_error (submissions tr) i = Some k ->
    k_passes k = i /\
    k_length k = List.length input /
                 Nat.min (max_work_group_size dev) (List.length input) ^ i.
Proof.
  intros Hne H.
  destruct (transform_reduce_loop _ _ _ _ _ _ _ _ Hne H) as (st & E & Htr & _).
  destruct (pass_loop_lengths _ _ _ _ _ _ _ _ E) as (ks & Hst & _ & Hk & _).
  rewrite Htr, Hst; cbn [trace]; rewrite <- app_assoc, submissions_setup_loop.
  intros i k Hi. exact (Hk i k Hi).
Qed.

(** The number of passes [p] of a call on [n] elements is the first [p >= 1]
    with [n / local ^ p <= 1]. *)
Theorem X_pass_count fuel dev (input : list T) uo init bo r tr :
  input <> [] ->
  transform_reduce undef fuel dev input uo init bo = Some (r, tr) ->
  let n := List.length input in
  let local := Nat.min (max_work_group_size dev) n in
  let p := List.length (submissions tr) in
  1 <= p /\ n / local ^ p <= 1 /\ (forall i, 1 <= i < p -> 1 < n / local ^ i).
Proof.
  intros Hne H n local p. subst n local p.
  destruct (transform_reduce_loop _ _ _ _ _ _ _ _ Hne H) as (st & E & Htr & _).
  destruct (pass_loop_lengths _ _ _ _ _ _ _ _ E) as (ks & Hst & Hks & _ & Hl & Hgt).
  destruct (pass_loop_trace undef _ _ _ _ _ _ _ _ E) as (_ & _ & _ & _ & _ & Hle).
  assert (Hp : List.length (submissions tr) = List.length ks).
  { rewrite Htr, Hst; cbn [trace]; rewrite <- app_assoc, submissions_setup_loop.
    reflexivity. }
  rewrite Hp. cbn [length] in Hl, Hgt.
  split; [destruct ks; [contradiction|simpl; lia]|].
  split; [rewrite <- Hl; exact Hle|exact Hgt].
Qed.

(** Every pass of a call launches the same global size, computed once from
    the initial length; it is not recomputed as the logical length shrinks. *)
Theorem X_global_fixed fuel dev (input : list T) uo init bo r tr :
  input <> [] ->
  transform_reduce undef fuel dev input uo init bo = Some (r, tr) ->
  let n := List.length input in
  forall k, In k (submissions tr) ->
    k_global k = calculateGlobalSize n (Nat.min (max_work_group_size dev) n).
Proof.
  intros Hne H n k Hin.
  destruct (transform_reduce_shape undef _ _ _ _ _ _ _ _ Hne H)
    as (st & ks & _ & _ & Htr & _ & _ & Hk).
  rewrite Htr, submissions_setup_loop in Hin.
  exact (proj2 (Hk k Hin)).
Qed.

(** On a device whose maximum group size is at least 2, every non-empty call
    returns, after at most [n] passes. *)
Theorem X_terminates_group_size_two fuel dev (input : list T) uo init bo :
  2 <= max_work_group_size dev -> input <> [] -> List.length input <= fuel ->
  exists r tr, transform_reduce undef fuel dev input uo init bo = Some (r, tr).
Proof.
  intros Hmax Hne Hf. unfold transform_reduce.
  destruct input as [|x xs]; [contradiction|]. cbn [List.length Nat.ltb Nat.leb].
  destruct xs as [|y ys].
  - destruct fuel as [|f]; [simpl in Hf; lia|].
    simpl. replace (Nat.min (max_work_group_size dev) 1) with 1 by lia.
    eexists; eexists; reflexivity.
  - destruct (pass_loop_terminates undef fuel
                (Nat.min (max_work_group_size dev) (List.length (x :: y :: ys)))
                (calculateGlobalSize (List.length (x :: y :: ys))
                   (Nat.min (max_work_group_size dev) (List.length (x :: y :: ys))))
                uo bo (x :: y :: ys)
                (mk_state 0 (List.length (x :: y :: ys))
                   (repeat undef (List.length (x :: y :: ys)))
                   [EvResultBuffer (List.length (x :: y :: ys)); EvDeviceQuery;
                    EvInputBuffer (List.length (x :: y :: ys))]))
      as [st Hst]; simpl in *; try lia.
    rewrite Hst. eexists; eexists; reflexivity.
Qed.

End Extra.

Section Extra2.

Context {T : Type}.
Variable undef : T.

(** [init] takes no part in the device work: it is combined once, as the right
    operand, with a device value that does not depend on it. *)
Theorem X_init_only_in_final_combine fuel dev (input : list T) uo init bo r tr :
  input <> [] ->
  transform_reduce undef fuel dev input uo init bo = Some (r, tr) ->
  exists d, r = bo d init /\
    forall init', transform_reduce undef fuel dev input uo init' bo = Some (bo d init', tr).
Proof.
  intros Hne H. unfold transform_reduce in *.
  destruct input as [|x xs]; [contradiction|]. cbv zeta in *. cbn [Nat.ltb Nat.leb List.length] in *.
  destruct (pass_loop _ _ _ _ _ _ _ _) as [st|]; [|discriminate].
  injection H as <- <-. exists (nth 0 (bufR st) undef).
  split; [reflexivity|]. intros init'. reflexivity.
Qed.

Section Fusion.

Variable uo : T -> T.
Variable bo : T -> T -> T.
Variable input : list T.

Lemma ingest_fusion k aR globalid :
  (k_passes k = 0 -> k_length k <= List.length input) ->
  kernel_ingest undef k uo input aR globalid =
  kernel_ingest undef k (fun x => x) (map uo input) aR globalid.
Proof.
  intros Hk. unfold kernel_ingest.
  destruct (k_passes k =? 0) eqn:Ep; [|reflexivity].
  unfold workitem_get_from_input.
  destruct (globalid <? k_length k) eqn:El; [|reflexivity].
  apply Nat.eqb_eq in Ep. apply Nat.ltb_lt in El. specialize (Hk Ep).
  rewrite (nth_indep (map uo input) undef (uo undef)) by (rewrite length_map; lia).
  rewrite map_nth. reflexivity.
Qed.

Lemma run_kernel_fusion k aR :
  (k_passes k = 0 -> k_length k <= List.length input) ->
  run_kernel undef k uo bo input aR = run_kernel undef k (fun x => x) bo (map uo input) aR.
Proof.
  intros Hk. unfold run_kernel. apply fold_left_ext_acc. intros acc g _.
  unfold group_value. f_equal. f_equal. apply map_ext. intros l.
  apply ingest_fusion. exact Hk.
Qed.

Lemma pass_loop_fusion fuel local global (st : @loop_state T) :
  (passes st = 0 -> length st <= List.length input) ->
  pass_loop undef fuel local global uo bo input st =
  pass_loop undef fuel local global (fun x => x) bo (map uo input) st.
Proof.
  revert st. induction fuel as [|f IH]; intros st Hst; [reflexivity|].
  cbn [pass_loop]. unfold loop_body.
  rewrite run_kernel_fusion by exact Hst.
  destruct (1 <? _); [|reflexivity].
  apply IH. intros H0. discriminate H0.
Qed.

End Fusion.

(** A call with [unary_op] returns what the call with the identity returns on
    the transformed sequence, with the same device interactions: the transform
    is applied only to the input elements, once each, on pass 0. *)
Theorem X_transform_fuses fuel dev (input : list T) uo init bo :
  transform_reduce undef fuel dev input uo init bo =
  transform_reduce undef fuel dev (map uo input) (fun x => x) init bo.
Proof.
  unfold transform_reduce. cbv zeta. rewrite length_map.
  destruct (List.length input <? 1); [reflexivity|].
  rewrite pass_loop_fusion by (intros _; apply le_n). reflexivity.
Qed.

Lemma fold_left_shift (bo : T -> T -> T)
    (bo_assoc : forall a b c, bo a (bo b c) = bo (bo a b) c) l y z :
  bo y (fold_left bo l z) = fold_left bo l (bo y z).
Proof.
  revert z. induction l as [|a l IH]; intros z; [reflexivity|].
  simpl. rewrite IH, bo_assoc. reflexivity.
Qed.

Lemma opt_fold_some (bo : T -> T -> T)
    (bo_assoc : forall a b c, bo a (bo b c) = bo (bo a b) c) l y :
  opt_fold bo (map Some (y :: l)) = Some (fold_left bo l y).
Proof.
  revert y. induction l as [|z l IH]; intros y; [reflexivity|].
  change (opt_fold bo (map Some (y :: z :: l)))
    with (opt_op bo (Some y) (opt_fold bo (map Some (z :: l)))).
  rewrite IH. simpl. rewrite fold_left_shift by exact bo_assoc. reflexivity.
Qed.

Lemma calc_global_self n : 1 <= n -> calculateGlobalSize n n = n.
Proof.
  intros Hn. unfold calculateGlobalSize.
  rewrite <- (Nat.div_unique (n + n - 1) n 1 (n - 1)) by lia. lia.
Qed.

Lemma run_kernel_single_group (bo : T -> T -> T)
    (bo_assoc : forall a b c, bo a (bo b c) = bo (bo a b) c) uo x xs n :
  n = List.length (x :: xs) ->
  run_kernel undef (mk_kernel 0 n n n) uo bo (x :: xs) (repeat undef n) =
  set_nth 0 (fold_left bo (map uo xs) (uo x)) (repeat undef n).
Proof.
  intros Hn. unfold run_kernel. cbn [k_global k_local].
  rewrite Nat.max_id, Nat.div_same by (simpl in Hn; lia).
  cbn [seq fold_left]. unfold group_value. cbn [k_local].
  rewrite combine_threads_fold by exact bo_assoc.
  assert (Hm : map (fun localid => kernel_ingest undef (mk_kernel 0 n n n) uo
                                     (x :: xs) (repeat undef n) (0 * n + localid))
                   (seq 0 n) = map Some (map uo (x :: xs))).
  { transitivity (map (fun i => Some (uo (nth i (x :: xs) undef))) (seq 0 n)).
    - apply map_ext_in. intros l Hl. apply in_seq in Hl.
      unfold kernel_ingest, workitem_get_from_input. cbn [k_passes k_length Nat.eqb].
      replace (0 * n + l <? n) with true by (symmetry; apply Nat.ltb_lt; lia).
      reflexivity.
    - rewrite <- (map_map (fun i => uo (nth i (x :: xs) undef)) Some).
      rewrite <- (map_map (fun i => nth i (x :: xs) undef) uo).
      rewrite Hn, map_nth_seq. reflexivity. }
  rewrite Hm. change (map uo (x :: xs)) with (uo x :: map uo xs).
  rewrite opt_fold_some by exact bo_assoc. reflexivity.
Qed.

(** When the whole input fits in one work-group ([n <= maxGroupSize]) and
    [binary_op] is associative, the call makes exactly one pass, with
    [local = global = n], and returns the sequential fold of the transformed
    input followed by [init]. *)
Theorem X_single_group_exact fuel dev (input : list T) uo init bo
    (bo_assoc : forall a b c, bo a (bo b c) = bo (bo a b) c) :
  input <> [] -> List.length input <= max_work_group_size dev -> 1 <= fuel ->
  transform_reduce undef fuel dev input uo init bo =
    Some (seq_fold bo (map uo input) init,
          [EvResultBuffer (List.length input); EvDeviceQuery;
           EvInputBuffer (List.length input);
           EvSubmit (mk_kernel 0 (List.length input) (List.length input)
                       (List.length input));
           EvWait; EvReadBack]).
Proof.
  intros Hne Hmax Hf.
  destruct input as [|x xs]; [contradiction|].
  destruct fuel as [|f]; [lia|].
  unfold transform_reduce. cbv zeta.
  remember (List.length (x :: xs)) as n eqn:Hn.
  assert (H1 : 1 <= n) by (rewrite Hn; simpl; lia).
  replace (n <? 1) with false by (symmetry; apply Nat.ltb_ge; lia).
  rewrite (Nat.min_r _ _ Hmax), (calc_global_self n H1).
  cbn [pass_loop]. unfold loop_body. cbn [passes length bufR trace].
  rewrite Nat.div_same by lia. cbn [Nat.ltb Nat.leb].
  rewrite (run_kernel_single_group bo bo_assoc uo x xs n Hn).
  destruct n as [|m]; [lia|]. cbn [repeat set_nth nth bufR trace].
  reflexivity.
Qed.

End Extra2.

(** * Instances of the further properties *)

Lemma X_pass_lengths_witness :
  exists r tr,
    transform_reduce 0 10 (mk_device 2) [1;2;3;4;5;6;7;8] (fun x => x) 0 Nat.add
      = Some (r, tr) /\
    forall i k, nth_error (submissions tr) i = Some k ->
      k_passes k = i /\
      k_length k = List.length [1;2;3;4;5;6;7;8] /
        Nat.min (max_work_group_size (mk_device 2)) (List.length [1;2;3;4;5;6;7;8]) ^ i.
Proof.
  eexists; eexists; split; [reflexivity|].
  exact (X_pass_lengths 0 10 (mk_device 2) [1;2;3;4;5;6;7;8] (fun x => x) 0 Nat.add
           _ _ ltac:(discriminate) eq_refl).
Defined.

Lemma X_pass_count_witness :
  exists r tr,
    transform_reduce 0 10 (mk_device 2) [1;2;3;4;5] (fun x => x) 0 Nat.add
      = Some (r, tr) /\
    1 <= List.length (submissions tr) /\
    5 / Nat.min 2 5 ^ List.length (submissions tr) <= 1 /\
    (forall i, 1 <= i < List.length (submissions tr) -> 1 < 5 / Nat.min 2 5 ^ i).
Proof.
  eexists; eexists; split; [reflexivity|].
  exact (X_pass_count 0 10 (mk_device 2) [1;2;3;4;5] (fun x => x) 0 Nat.add
           _ _ ltac:(discriminate) eq_refl).
Defined.

Lemma X_global_fixed_witness :
  exists r tr,
    transform_reduce 0 10 (mk_device 2) [1;2;3;4;5] (fun x => x) 0 Nat.add
      = Some (r, tr) /\
    forall k, In k (submissions tr) -> k_global k = calculateGlobalSize 5 (Nat.min 2 5).
Proof.
  eexists; eexists; split; [reflexivity|].
  exact (X_global_fixed 0 10 (mk_device 2) [1;2;3;4;5] (fun x => x) 0 Nat.add
           _ _ ltac:(discriminate) eq_refl).
Defined.

Lemma X_terminates_group_size_two_witness :
  exists r tr,
    transform_reduce 0 5 (mk_device 3) [1;2;3;4;5] (fun x => x) 0 Nat.add = Some (r, tr).
Proof.
  exact (X_terminates_group_size_two 0 5 (mk_device 3) [1;2;3;4;5] (fun x => x) 0 Nat.add
           ltac:(simpl; lia) ltac:(discriminate) ltac:(simpl; lia)).
Defined.

Lemma X_init_only_in_final_combine_witness :
  exists r tr,
    transform_reduce 0 10 (mk_device 2) [9;4;1] S 3 Nat.sub = Some (r, tr) /\
    exists d, r = Nat.sub d 3 /\
      forall init', transform_reduce 0 10 (mk_device 2) [9;4;1] S init' Nat.sub
                    = Some (Nat.sub d init', tr).
Proof.
  eexists; eexists; split; [reflexivity|].
  exact (X_init_only_in_final_combine 0 10 (mk_device 2) [9;4;1] S 3 Nat.sub
           _ _ ltac:(discriminate) eq_refl).
Defined.

Lemma X_single_group_exact_witness :
  transform_reduce 0 1 (mk_device 4) [1;2;3] (fun x => x * x) 0 Nat.add =
    Some (seq_fold Nat.add (map (fun x => x * x) [1;2;3]) 0,
          [EvResultBuffer 3; EvDeviceQuery; EvInputBuffer 3;
           EvSubmit (mk_kernel 0 3 3 3); EvWait; EvReadBack]).
Proof.
  exact (X_single_group_exact 0 1 (mk_device 4) [1;2;3] (fun x => x * x) 0 Nat.add
           Nat.add_assoc ltac:(discriminate) ltac:(simpl; lia) ltac:(lia)).
Defined.
